(** * A shallow embedding of the arbitrage agent [src/agent/agent.py]

    The agent is a single Python module driven by [asyncio].  Its numbers are
    Python objects of three kinds: arbitrary-precision [int]s, binary64
    [float]s, and the [decimal.Decimal]s that [w3.from_wei] produces.  Every
    remote call (pool quotes, contract simulation, gas estimation, fee and
    nonce reads, broadcast, receipt wait) is an oracle result supplied by an
    environment record; every Python exception is a constructor of [exn]. *)

From Stdlib Require Import ZArith QArith List Bool String Floats Lia.
Import ListNotations.
Set Warnings "-inexact-float".
Open Scope Z_scope.

(* ------------------------------------------------------------------------- *)
(** ** Python exceptions and the exception monad *)

Module Py.

Inductive exn :=
| TypeError
| ValueError
| OverflowError
| ZeroDivisionError
| IndexError
| UnboundLocalError
| RemoteError.  (** any failure raised by an awaited RPC call *)

(** A computation that returns an [A] or raises. *)
Definition M (A : Type) : Type := (exn + A)%type.

Definition ret {A} (a : A) : M A := inr a.
Definition raise {A} (e : exn) : M A := inl e.
Definition bind {A B} (m : M A) (k : A -> M B) : M B :=
  match m with inl e => inl e | inr a => k a end.

Notation "x <- m ;; k" := (bind m (fun x => k))
  (at level 61, m at next level, right associativity).
Notation "' p <- m ;; k" := (bind m (fun x => match x with p => k end))
  (at level 61, p pattern, m at next level, right associativity).

(** Reading a local variable that may not have been assigned
    (Python raises [UnboundLocalError]). *)
Definition bound {A} (o : option A) : M A :=
  match o with Some a => ret a | None => raise UnboundLocalError end.

(** [xs[-1]] *)
Definition last_item (xs : list Z) : M Z :=
  match rev xs with [] => raise IndexError | x :: _ => ret x end.

(** ** Numbers *)

Inductive num :=
| PInt (z : Z)
| PFloat (f : float)
| PDec (q : Q).  (** a [decimal.Decimal], by its exact value *)

(** [float(n)]: round to nearest even; [OverflowError] when out of range. *)
Definition float_of_int (z : Z) : M float :=
  match binary_normalize prec emax z 0 false with
  | S754_infinity _ => raise OverflowError
  | sf => ret (SF2Prim sf)
  end.

(** [a / b] on two [int]s: the correctly rounded quotient. *)
Definition int_truediv (a b : Z) : M float :=
  if Z.eqb b 0 then raise ZeroDivisionError
  else
    let s := xorb (Z.ltb a 0) (Z.ltb b 0) in
    match Z.abs a, Z.abs b with
    | Z0, _ => ret (SF2Prim (S754_zero s))
    | Zpos pa, Zpos pb =>
        let '(m, e, l) := SFdiv_core_binary prec emax (Zpos pa) 0 (Zpos pb) 0 in
        match binary_round_aux prec emax s m e l with
        | S754_infinity _ => raise OverflowError
        | sf => ret (SF2Prim sf)
        end
    | _, _ => raise ZeroDivisionError
    end.

(** [int(x)] for a float: truncation toward zero. *)
Definition int_of_float (f : float) : M Z :=
  match Prim2SF f with
  | S754_zero _ => ret 0%Z
  | S754_infinity _ => raise OverflowError
  | S754_nan => raise ValueError
  | S754_finite s m e =>
      let mag := if Z.leb 0 e then Z.shiftl (Zpos m) e
                 else Z.shiftr (Zpos m) (Z.opp e) in
      ret (if s then Z.opp mag else mag)
  end.

(** Binary arithmetic.  A mixed [int]/[float] operation converts the [int]
    to [float] first; [Decimal] refuses to mix with [float] ([TypeError]).
    [Decimal] arithmetic with [int]s is kept exact: the agent never
    performs one. *)
Definition arith (zop : Z -> Z -> Z) (fop : float -> float -> float)
    (qop : Q -> Q -> Q) (a b : num) : M num :=
  match a, b with
  | PInt x, PInt y => ret (PInt (zop x y))
  | PInt x, PFloat y => x' <- float_of_int x;; ret (PFloat (fop x' y))
  | PFloat x, PInt y => y' <- float_of_int y;; ret (PFloat (fop x y'))
  | PFloat x, PFloat y => ret (PFloat (fop x y))
  | PDec x, PDec y => ret (PDec (qop x y))
  | PDec x, PInt y => ret (PDec (qop x (inject_Z y)))
  | PInt x, PDec y => ret (PDec (qop (inject_Z x) y))
  | PDec _, PFloat _ | PFloat _, PDec _ => raise TypeError
  end.

Definition add := arith Z.add PrimFloat.add Qplus.
Definition sub := arith Z.sub PrimFloat.sub Qminus.
Definition mul := arith Z.mul PrimFloat.mul Qmult.

(** True division [/]. *)
Definition truediv (a b : num) : M num :=
  match a, b with
  | PInt x, PInt y => f <- int_truediv x y;; ret (PFloat f)
  | PDec _, PFloat _ | PFloat _, PDec _ => raise TypeError
  | PDec x, PDec y => if Qeq_bool y 0 then raise ZeroDivisionError else ret (PDec (x / y))
  | PDec x, PInt y => if Z.eqb y 0 then raise ZeroDivisionError else ret (PDec (x / inject_Z y))
  | PInt x, PDec y => if Qeq_bool y 0 then raise ZeroDivisionError else ret (PDec (inject_Z x / y))
  | _, _ =>
      x <- (match a with PInt x => float_of_int x | PFloat x => ret x | PDec _ => raise TypeError end);;
      y <- (match b with PInt y => float_of_int y | PFloat y => ret y | PDec _ => raise TypeError end);;
      if PrimFloat.eqb y 0 then raise ZeroDivisionError else ret (PFloat (PrimFloat.div x y))
  end.

(** [int(x)] *)
Definition to_int (a : num) : M Z :=
  match a with
  | PInt z => ret z
  | PFloat f => int_of_float f
  | PDec q => ret (Z.quot (Qnum q) (Zpos (Qden q)))
  end.

(** ** Comparisons

    Python compares [int], [float] and [Decimal] by their exact values;
    comparisons with a NaN are false. *)
Inductive ext := NegInf | Fin (q : Q) | PosInf | NaN.

Definition q_of_finite (s : bool) (m : positive) (e : Z) : Q :=
  let mag := if Z.leb 0 e then inject_Z (Zpos m * 2 ^ e)
             else Qmake (Zpos m) (Z.to_pos (2 ^ (- e))) in
  if s then Qopp mag else mag.

Definition ext_of_float (f : float) : ext :=
  match Prim2SF f with
  | S754_zero _ => Fin 0
  | S754_infinity true => NegInf
  | S754_infinity false => PosInf
  | S754_nan => NaN
  | S754_finite s m e => Fin (q_of_finite s m e)
  end.

Definition ext_of (a : num) : ext :=
  match a with
  | PInt z => Fin (inject_Z z)
  | PFloat f => ext_of_float f
  | PDec q => Fin q
  end.

(** [x > y] on extended values *)
Definition ext_gt (x y : ext) : bool :=
  match x, y with
  | NaN, _ | _, NaN => false
  | PosInf, PosInf => false
  | PosInf, _ => true
  | Fin a, Fin b => negb (Qle_bool a b)
  | Fin _, NegInf => true
  | _, _ => false
  end.

(** [a > b] *)
Definition gt (a b : num) : bool := ext_gt (ext_of a) (ext_of b).

(** Comparisons of an [int] with a module constant that may still be [None]. *)
Definition int_ge_opt (x : Z) (y : option Z) : M bool :=
  match y with None => raise TypeError | Some y => ret (Z.leb y x) end.
Definition int_gt_opt (x : Z) (y : option Z) : M bool :=
  match y with None => raise TypeError | Some y => ret (Z.ltb y x) end.

(** [min(x, y)] for two arguments: [y] if [y < x], else [x]. *)
Definition min_opt (x : option Z) (y : Z) : M Z :=
  match x with None => raise TypeError | Some x => ret (if Z.ltb y x then y else x) end.

End Py.

(* ------------------------------------------------------------------------- *)
(** ** The agent *)

Module Agent.
Import Py.

(** Ether units of [eth_utils] *)
Definition ETHER : Z := 10 ^ 18.
Definition GWEI : Z := 10 ^ 9.
Definition MAX_WEI : Z := 2 ^ 256 - 1.

(** [w3.from_wei(number, unit)]: [0] is returned as the [int] [0]; any other
    value as the exact [Decimal] [number / unit]. *)
Definition from_wei (number unit : Z) : M num :=
  if Z.eqb number 0 then ret (PInt 0)
  else if orb (Z.ltb number 0) (Z.ltb MAX_WEI number) then raise ValueError
  else ret (PDec (inject_Z number / inject_Z unit)).

(** A configured route: [PAIRS] entries of [main]. *)
Record pair := mk_pair {
  pair_name : string;
  token : Z;
  uniswap_pair : Z;
  sushiswap_pair : Z;
  path1 : list Z;
  path2 : list Z;
  decimals : Z
}.

(** Module-level constants read by [execute_arbitrage], [handle_new_block]
    and [main].  [None] is Python's [None]. *)
Record globals := mk_globals {
  PAIRS : list pair;
  LOAN_AMOUNTS : list Z;
  MIN_PROFIT_THRESHOLD : option Z;
  MAX_GAS_PRICE : option Z;
  BASE_PRIORITY_FEE : option Z;
  INITIAL_BACKOFF : Z;
  POLL_INTERVAL : Z
}.

(** Their values when the module is imported (lines 48-59). *)
Definition module_globals : globals := {|
  PAIRS := [];
  LOAN_AMOUNTS := [];
  MIN_PROFIT_THRESHOLD := None;
  MAX_GAS_PRICE := None;
  BASE_PRIORITY_FEE := None;
  INITIAL_BACKOFF := 10;
  POLL_INTERVAL := 1
|}.

Definition GAS_BUFFER : float := 1.2.

(* Addresses of main *)
Definition WETH : Z := 0xC02aaA39b223FE8D0A0e5C4F27eAD9083C756Cc2.
Definition USDT : Z := 0xdAC17F958D2ee523a2206206994597C13D831ec7.
Definition USDC : Z := 0xA0b86991c6218b36c1d19D4a2e9Eb0cE3606eB48.

Definition weth_usdt : pair := {|
  pair_name := "WETH/USDT"; token := USDT;
  uniswap_pair := 0x0d4a11d5EEaaC28EC3F61d100daF4d40471f1852;
  sushiswap_pair := 0x06da0fd433C1A5d7a4faa01111c044910A184553;
  path1 := [WETH; USDT]; path2 := [USDT; WETH]; decimals := 6 |}.

Definition usdc_weth : pair := {|
  pair_name := "USDC/WETH"; token := USDC;
  uniswap_pair := 0xB4e16d0168e52d35CaCD2c6185b44281Ec28C9Dc;
  sushiswap_pair := 0x397FF1542f962076d0BFE58eA045FfA2d347ACa0;
  path1 := [WETH; USDC]; path2 := [USDC; WETH]; decimals := 6 |}.

(** The initialisation in [main] (lines 341-383).  Its [global] statement
    names [w3, contract, WETH, PAIRS, LOAN_AMOUNTS, MIN_PROFIT_THRESHOLD]
    only: the assignments to [MAX_GAS_PRICE], [BASE_PRIORITY_FEE],
    [INITIAL_BACKOFF], ... bind locals of [main], and the module-level
    values stay as they were. *)
Definition main_init (g : globals) : globals := {|
  PAIRS := [weth_usdt; usdc_weth];
  LOAN_AMOUNTS := [1 * ETHER; 10 * ETHER];
  MIN_PROFIT_THRESHOLD := Some (10 ^ 12);   (* w3.to_wei(0.000001, 'ether') *)
  MAX_GAS_PRICE := MAX_GAS_PRICE g;
  BASE_PRIORITY_FEE := BASE_PRIORITY_FEE g;
  INITIAL_BACKOFF := INITIAL_BACKOFF g;
  POLL_INTERVAL := POLL_INTERVAL g
|}.

(** ** [escape_markdown] (lines 17-19)

    A Python [str] is a sequence of code points.  [re.sub] with the
    character class built from [escape_chars] puts a backslash before every
    occurrence of one of its characters. *)
Definition escape_chars : list Z :=
  map (fun a => Z.of_nat (Ascii.nat_of_ascii a)) (list_ascii_of_string "_*[]()~`>#+-=|{}.!").

Definition BACKSLASH : Z := 92.

Definition is_escape_char (c : Z) : bool := existsb (Z.eqb c) escape_chars.

Fixpoint escape_markdown (text : list Z) : list Z :=
  match text with
  | [] => []
  | c :: rest =>
      if is_escape_char c then BACKSLASH :: c :: escape_markdown rest
      else c :: escape_markdown rest
  end.

(** ** [simulate_arbitrage] *)

(** What the network answers to the calls of one probe. *)
Record probe_env := mk_probe_env {
  amounts_out_1 : M (list Z);   (** uniswap [getAmountsOut(amount_in, path1)] *)
  amounts_out_2 : M (list Z);   (** sushiswap [getAmountsOut(token_out, path2)] *)
  simulate_call : M (bool * Z); (** [contract.functions.simulateArbitrage(...).call()] *)
  estimate_gas : M Z;           (** [w3.eth.estimate_gas(tx)] *)
  gas_price : M Z               (** [w3.eth.gas_price] *)
}.

(** [(profitable, estimated_profit, net_profit_weth, gas_cost_weth)] *)
Definition probe_result : Type := (bool * Z * num * num)%type.

Definition failure_tuple : probe_result := (false, 0%Z, PInt 0, PInt 0).

Definition FEE_RATE : float := 0.003.

(** Lines 155-165: the fee estimate, from the two legs' outputs. *)
Definition fees (token_out weth_out : Z) : M num :=
  fee_step1 <- mul (PInt token_out) (PFloat FEE_RATE);;
  fee_step2 <- mul (PInt weth_out) (PFloat FEE_RATE);;
  fee_token_wei <- mul (PInt token_out) (PFloat FEE_RATE);;
  fee_weth_wei <- mul (PInt weth_out) (PFloat FEE_RATE);;
  s <- add fee_token_wei fee_weth_wei;;
  total_fees_wei <- to_int s;;
  truediv (PInt total_fees_wei) (PFloat 1e18).

(** Lines 189-196: the inner [try] estimating the gas cost.  It returns the
    locals it leaves bound: [gas_estimate], [gas_price], [gas_cost_wei]
    (each possibly unassigned) and [gas_cost_weth]. *)
Definition gas_block (pe : probe_env) (amount_in : Z)
    : M (option Z * option Z * option Z * num) :=
  let fallback ge gp gcw :=
    (* logger.warning(... w3.from_wei(amount_in, 'ether') ...) *)
    _ <- from_wei amount_in ETHER;;
    ret (ge, gp, gcw, PFloat 0.01) in
  match estimate_gas pe with
  | inl _ => fallback None None None
  | inr ge =>
      match gas_price pe with
      | inl _ => fallback (Some ge) None None
      | inr gp =>
          match (x <- mul (PInt ge) (PFloat GAS_BUFFER);;
                 y <- mul x (PInt gp);;
                 to_int y) with
          | inl _ => fallback (Some ge) (Some gp) None
          | inr gcw =>
              match truediv (PInt gcw) (PInt ETHER) with
              | inl _ => fallback (Some ge) (Some gp) (Some gcw)
              | inr gcweth => ret (Some ge, Some gp, Some gcw, gcweth)
              end
          end
      end
  end.

(** Lines 135-218: the body of the outer [try]. *)
Definition simulate_body (pe : probe_env) (amount_in : Z) : M probe_result :=
  out1 <- amounts_out_1 pe;;
  token_out <- last_item out1;;
  out2 <- amounts_out_2 pe;;
  weth_out <- last_item out2;;
  total_fees_weth <- fees token_out weth_out;;
  '(profitable, estimated_profit) <- simulate_call pe;;
  '(gas_estimate, gas_price, gas_cost_wei, gas_cost_weth) <- gas_block pe amount_in;;
  gross_profit_weth <- from_wei estimated_profit ETHER;;
  n1 <- sub gross_profit_weth total_fees_weth;;
  net_profit_weth <- sub n1 gas_cost_weth;;
  (* logger.info(... w3.from_wei(amount_in, 'ether') ...) *)
  _ <- from_wei amount_in ETHER;;
  (* print(...) of lines 207-216 read every local *)
  _ <- bound gas_estimate;;
  _ <- bound gas_price;;
  _ <- bound gas_cost_wei;;
  ret (profitable, estimated_profit, net_profit_weth, gas_cost_weth).

(** [simulate_arbitrage]: the [except Exception] handler of lines 219-224
    decodes a revert reason (which never raises), logs with
    [w3.from_wei(amount_in, 'ether')], alerts (never raises) and returns
    [(False, 0, 0, 0)]. *)
Definition simulate_arbitrage (pe : probe_env) (amount_in : Z) : M probe_result :=
  match simulate_body pe amount_in with
  | inr r => ret r
  | inl _ => _ <- from_wei amount_in ETHER;; ret failure_tuple
  end.

(** ** The scan and selection of [execute_arbitrage] (lines 228-258) *)

Record best := mk_best {
  best_pair : option pair;
  best_amount : option Z;
  best_profit : Z;
  best_net_profit : num;
  best_profitable : bool;
  best_gas_cost : num
}.

(** The locals as lines 228-233 initialise them. *)
Definition best0 : best := {|
  best_pair := None; best_amount := None; best_profit := 0;
  best_net_profit := PFloat neg_infinity; best_profitable := false;
  best_gas_cost := PInt 0 |}.

(** Lines 244-254: [profitable and estimated_profit >= MIN_PROFIT_THRESHOLD
    and net_profit_weth > best_net_profit and net_profit_weth > 0], with
    Python's short-circuit [and]. *)
Definition update (thr : option Z) (b : best) (p : pair) (amount_in : Z)
    (r : probe_result) : M best :=
  let '(profitable, estimated_profit, net_profit_weth, gas_cost_weth) := r in
  if profitable then
    c <- int_ge_opt estimated_profit thr;;
    if c && gt net_profit_weth (best_net_profit b) && gt net_profit_weth (PInt 0)
    then ret {| best_pair := Some p; best_amount := Some amount_in;
                best_profit := estimated_profit; best_net_profit := net_profit_weth;
                best_profitable := true; best_gas_cost := gas_cost_weth |}
    else ret b
  else ret b.

(** The selection over the probes' results, in the order they were made. *)
Fixpoint select (thr : option Z) (b : best) (rs : list (pair * Z * probe_result))
    : M best :=
  match rs with
  | [] => ret b
  | (p, a, r) :: rest => b' <- update thr b p a r;; select thr b' rest
  end.

(** One probe of the loop body: [simulate_arbitrage], then the alert, whose
    f-string evaluates [w3.from_wei(amount_in, 'ether')]. *)
Definition probe (envs : pair -> Z -> probe_env) (p : pair) (a : Z) : M probe_result :=
  r <- simulate_arbitrage (envs p a) a;;
  _ <- from_wei a ETHER;;
  ret r.

Fixpoint scan_amounts (thr : option Z) (envs : pair -> Z -> probe_env) (p : pair)
    (amounts : list Z) (b : best) : M best :=
  match amounts with
  | [] => ret b
  | a :: rest =>
      r <- probe envs p a;;
      b' <- update thr b p a r;;
      scan_amounts thr envs p rest b'
  end.

(** [for pair in PAIRS: for amount_in in LOAN_AMOUNTS: ...] *)
Fixpoint scan_pairs (thr : option Z) (envs : pair -> Z -> probe_env)
    (pairs : list pair) (amounts : list Z) (b : best) : M best :=
  match pairs with
  | [] => ret b
  | p :: ps =>
      b' <- scan_amounts thr envs p amounts b;;
      scan_pairs thr envs ps amounts b'
  end.

(** The results of the probes of one pair, in order. *)
Fixpoint probe_amounts (envs : pair -> Z -> probe_env) (p : pair) (amounts : list Z)
    : M (list (pair * Z * probe_result)) :=
  match amounts with
  | [] => ret []
  | a :: rest => r <- probe envs p a;; rs <- probe_amounts envs p rest;; ret ((p, a, r) :: rs)
  end.

(** The results of all probes, pairs in the outer loop. *)
Fixpoint probe_all (envs : pair -> Z -> probe_env) (pairs : list pair)
    (amounts : list Z) : M (list (pair * Z * probe_result)) :=
  match pairs with
  | [] => ret []
  | p :: ps =>
      rs1 <- probe_amounts envs p amounts;;
      rs2 <- probe_all envs ps amounts;;
      ret (rs1 ++ rs2)
  end.

(** ** The gas admission check (lines 260-266) *)

(** What the network answers during one cycle, after the scan. *)
Record submit_env := mk_submit_env {
  pending_count : M Z;     (** [get_transaction_count(WALLET_ADDRESS, 'pending')], line 271 *)
  build : M unit;          (** [build_deadline], [chain_id], [build_transaction] *)
  estimate_tx_gas : M Z;   (** [w3.eth.estimate_gas(tx)], line 291 *)
  sign : M unit;           (** [w3.eth.account.sign_transaction] *)
  send_raw : M Z;          (** [send_raw_transaction]: the transaction hash *)
  receipt_status : M Z;    (** [wait_for_transaction_receipt(tx_hash, timeout=120).status] *)
  resync_count : M Z       (** [get_transaction_count(WALLET_ADDRESS, 'pending')], line 313 *)
}.

Record cycle_env := mk_cycle_env {
  probes : pair -> Z -> probe_env;
  latest_base_fee : M Z;   (** [(await w3.eth.get_block('latest'))['baseFeePerGas']] *)
  max_priority_fee : M Z;  (** [await w3.eth.max_priority_fee] *)
  submission : submit_env
}.

(** [Some (max_fee, priority_fee)] when the transaction may go out, [None]
    when the fee is too high. *)
Definition gas_guard (g : globals) (ce : cycle_env) : M (option (Z * Z)) :=
  base_fee <- latest_base_fee ce;;
  suggested <- max_priority_fee ce;;
  priority_fee <- min_opt (BASE_PRIORITY_FEE g) suggested;;
  let max_fee := base_fee + priority_fee in
  c <- int_gt_opt max_fee (MAX_GAS_PRICE g);;
  if c then
    (* logger.warning(f"Max fee too high: {w3.from_wei(max_fee, 'gwei')} gwei") *)
    _ <- from_wei max_fee GWEI;;
    ret None
  else ret (Some (max_fee, priority_fee)).

(** ** Nonce management and submission (lines 268-314) *)

(** What leaves the process: a transaction built with a nonce, and a
    broadcast. *)
Inductive event :=
| Built (nonce : Z)
| Broadcast (tx_hash : Z).

(** The global [last_nonce] (line 74), and the transactions so far. *)
Record state := mk_state {
  last_nonce : option Z;
  trace : list event
}.

Definition state0 : state := {| last_nonce := None; trace := [] |}.

(** A computation over the state that returns or raises; the state it
    leaves is kept in both cases, as Python's global assignments are. *)
Definition SM (A : Type) : Type := state -> M A * state.

Definition sret {A} (a : A) : SM A := fun s => (inr a, s).
Definition sbind {A B} (m : SM A) (k : A -> SM B) : SM B :=
  fun s => match m s with
           | (inl e, s') => (inl e, s')
           | (inr a, s') => k a s'
           end.
Definition lift {A} (m : M A) : SM A := fun s => (m, s).
Definition get_nonce : SM (option Z) := fun s => (inr (last_nonce s), s).
Definition set_nonce (n : option Z) : SM unit :=
  fun s => (inr tt, {| last_nonce := n; trace := trace s |}).
Definition emit (ev : event) : SM unit :=
  fun s => (inr tt, {| last_nonce := last_nonce s; trace := trace s ++ [ev] |}).

Notation "x <-- m ;;; k" := (sbind m (fun x => k))
  (at level 61, m at next level, right associativity).

(** [tx['gas'] = int(gas_estimate * GAS_BUFFER)] *)
Definition gas_limit (gas_estimate : Z) : M Z :=
  x <- mul (PInt gas_estimate) (PFloat GAS_BUFFER);; to_int x.

(** The body of [async with nonce_lock:] (lines 270-308).  The lock is held
    by the only task there is; it orders nothing in this model. *)
Definition submit_body (se : submit_env) (max_fee priority_fee : Z) (b : best)
    : SM bool :=
  held <-- get_nonce;;;
  n <-- (match held with
         | None => lift (pending_count se)
         | Some k => sret (k + 1)
         end);;;
  _ <-- set_nonce (Some n);;;
  _ <-- lift (build se);;;
  _ <-- emit (Built n);;;
  gas_estimate <-- lift (estimate_tx_gas se);;;
  _ <-- lift (gas_limit gas_estimate);;;
  _ <-- lift (sign se);;;
  tx_hash <-- lift (send_raw se);;;
  _ <-- emit (Broadcast tx_hash);;;
  status <-- lift (receipt_status se);;;
  if Z.eqb status 1 then sret true
  else
    (* get_revert_reason and the alert never raise; [last_nonce -= 1] *)
    cur <-- get_nonce;;;
    match cur with
    | None => lift (raise TypeError)
    | Some k => _ <-- set_nonce (Some (k - 1));;; sret false
    end.

(** Lines 268-314: on any exception the handler re-reads the pending count
    into [last_nonce]; an exception of that read escapes. *)
Definition submit (se : submit_env) (max_fee priority_fee : Z) (b : best) : SM bool :=
  fun s =>
    match submit_body se max_fee priority_fee b s with
    | (inr ok, s') => (inr ok, s')
    | (inl _, s') =>
        match resync_count se with
        | inl e' => (inl e', s')
        | inr c => (inr false, {| last_nonce := Some c; trace := trace s' |})
        end
    end.

(** [execute_arbitrage] *)
Definition execute_arbitrage (g : globals) (ce : cycle_env) : SM bool :=
  b <-- lift (scan_pairs (MIN_PROFIT_THRESHOLD g) (probes ce) (PAIRS g)
                         (LOAN_AMOUNTS g) best0);;;
  if negb (best_profitable b) then sret false
  else
    q <-- lift (gas_guard g ce);;;
    match q with
    | None => sret false
    | Some (max_fee, priority_fee) => submit (submission ce) max_fee priority_fee b
    end.

(** [handle_new_block]: [(success, backoff)]; it never raises. *)
Definition handle_new_block (g : globals) (ce : cycle_env) (s : state)
    : (bool * Z) * state :=
  match execute_arbitrage g ce s with
  | (inr ok, s') => ((ok, 0), s')
  | (inl _, s') => ((false, INITIAL_BACKOFF g), s')
  end.

(** ** The polling loop of [main] (lines 387-401) *)

(** One pass of [while True]: the height read, and the network seen by the
    cycle it may start. *)
Record tick := mk_tick {
  block_number : M Z;
  cycle : cycle_env
}.

Inductive outcome :=
| Exited (code : Z)       (** [exit(1)] *)
| Returned                (** [main] returns *)
| Crashed (e : exn)       (** an exception escapes [main] *)
| Running (last_block : Z). (** still looping after the given ticks *)

Fixpoint main_loop (g : globals) (ticks : list tick) (last_block : Z) (s : state)
    : outcome * state :=
  match ticks with
  | [] => (Running last_block, s)
  | t :: ts =>
      match block_number t with
      | inl e => (Crashed e, s)
      | inr current_block =>
          if Z.ltb last_block current_block then
            let '(_, s') := handle_new_block g (cycle t) s in
            (* asyncio.sleep(backoff) *)
            main_loop g ts current_block s'
          else
            (* asyncio.sleep(POLL_INTERVAL) *)
            main_loop g ts last_block s
      end
  end.

(** What start-up finds. *)
Record startup := mk_startup {
  env_complete : bool;  (** all six environment variables are set (line 41) *)
  abi_loaded : bool;    (** [PrimeFlashArb.json] was read (lines 64-70) *)
  connect : M unit;     (** [provider.connect()] *)
  first_block : M Z     (** the height read of line 388 *)
}.

(** The process: the module-level checks, then [asyncio.run(main())]. *)
Definition run (su : startup) (ticks : list tick) : outcome * state :=
  if negb (env_complete su) then (Exited 1, state0)
  else if negb (abi_loaded su) then (Exited 1, state0)
  else
    match connect su with
    | inl e => (Crashed e, state0)
    | inr _ =>
        let g := main_init module_globals in
        match first_block su with
        | inl _ => (Returned, state0)
        | inr last_block => main_loop g ticks last_block state0
        end
    end.

End Agent.

(* ------------------------------------------------------------------------- *)
(** ** Vocabulary of the properties *)

Module Props.
Import Py Agent.

(** The fields of a probe's result tuple. *)
Definition res_profitable (r : probe_result) : bool :=
  let '(p, _, _, _) := r in p.
Definition res_profit (r : probe_result) : Z :=
  let '(_, e, _, _) := r in e.
Definition res_net (r : probe_result) : num :=
  let '(_, _, n, _) := r in n.
Definition res_gas (r : probe_result) : num :=
  let '(_, _, _, g) := r in g.

(** The three conditions a result must meet to be selectable. *)
Definition qualifies (t : Z) (r : probe_result) : bool :=
  res_profitable r && Z.leb t (res_profit r) && gt (res_net r) (PInt 0).

(** [b] holds the first result of [rs] whose net profit is strictly
    greatest among the qualifying ones, or nothing when none qualifies. *)
Definition first_max (t : Z) (rs : list (pair * Z * probe_result)) (b : best) : Prop :=
  if best_profitable b then
    exists pre p a r post,
      rs = pre ++ (p, a, r) :: post /\
      qualifies t r = true /\
      best_pair b = Some p /\ best_amount b = Some a /\
      best_profit b = res_profit r /\ best_net_profit b = res_net r /\
      (forall x, In x pre -> qualifies t (snd x) = true ->
                 gt (res_net r) (res_net (snd x)) = true) /\
      (forall x, In x post -> qualifies t (snd x) = true ->
                 gt (res_net (snd x)) (res_net r) = false)
  else forall x, In x rs -> qualifies t (snd x) = false.

(** Following the spec's words: the fee is 0.3% of each leg's output, the
    token leg converted into WETH's unit (at the rate of the first leg's
    quote, [amount_in] wei for [token_out] token units) before the sum,
    expressed in WETH. *)
Definition fee_cost_spec (amount_in token_out weth_out : Z) : Q :=
  (((3 # 1000) * inject_Z token_out * (inject_Z amount_in / inject_Z token_out)
    + (3 # 1000) * inject_Z weth_out) / inject_Z ETHER)%Q.

(** A submission span in which every call succeeds and the receipt says
    [status == 1]. *)
Definition confirms (se : submit_env) : Prop :=
  build se = inr tt /\
  (exists ge gl, estimate_tx_gas se = inr ge /\ gas_limit ge = inr gl) /\
  sign se = inr tt /\
  (exists h, send_raw se = inr h) /\
  receipt_status se = inr 1.

(** Consecutive submissions, each given the network it sees. *)
Fixpoint submit_many (ses : list submit_env) (max_fee priority_fee : Z) (b : best)
    (s : state) : state :=
  match ses with
  | [] => s
  | se :: rest => submit_many rest max_fee priority_fee b (snd (submit se max_fee priority_fee b s))
  end.

(** Drops the backslash in front of each character of [escape_chars]. *)
Fixpoint unescape (s : list Z) : list Z :=
  match s with
  | [] => []
  | c :: rest =>
      if Z.eqb c BACKSLASH then
        match rest with
        | d :: rest' => if is_escape_char d then d :: unescape rest' else c :: unescape rest
        | [] => [c]
        end
      else c :: unescape rest
  end.

(** The (pair, amount) of a probe result. *)
Definition probe_key (x : pair * Z * probe_result) : pair * Z := fst x.

End Props.

(* ------------------------------------------------------------------------- *)
(** ** Concrete networks *)

Module Scenarios.
Import Py Agent.

(** A probe of 1 WETH on a USDT route: 2000 USDT out of the first leg,
    1 WETH back; the contract reports [est] wei of profit. *)
Definition probe_at (est : Z) (gas_ok : bool) : probe_env := {|
  amounts_out_1 := ret [ETHER; 2000 * 10 ^ 6];
  amounts_out_2 := ret [2000 * 10 ^ 6; ETHER];
  simulate_call := ret (true, est);
  estimate_gas := if gas_ok then ret 300000 else raise RemoteError;
  gas_price := ret (20 * GWEI)
|}.

Definition probes_at (est : Z) : pair -> Z -> probe_env := fun _ _ => probe_at est true.

(** A submission with the given failures. *)
Definition submission_at (send_ok : bool) (status pending : Z) : submit_env := {|
  pending_count := ret pending;
  build := ret tt;
  estimate_tx_gas := ret 250000;
  sign := ret tt;
  send_raw := if send_ok then ret 4242 else raise RemoteError;
  receipt_status := ret status;
  resync_count := ret pending
|}.

(** A cycle: base fee and suggested priority fee, in gwei. *)
Definition cycle_at (est base suggested : Z) : cycle_env := {|
  probes := probes_at est;
  latest_base_fee := ret (base * GWEI);
  max_priority_fee := ret (suggested * GWEI);
  submission := submission_at true 1 5
|}.

(** The configuration [main] means to set: caps of 100 and 2 gwei. *)
Definition intended_globals : globals := {|
  PAIRS := PAIRS (main_init module_globals);
  LOAN_AMOUNTS := LOAN_AMOUNTS (main_init module_globals);
  MIN_PROFIT_THRESHOLD := MIN_PROFIT_THRESHOLD (main_init module_globals);
  MAX_GAS_PRICE := Some (100 * GWEI);
  BASE_PRIORITY_FEE := Some (2 * GWEI);
  INITIAL_BACKOFF := 10;
  POLL_INTERVAL := 1
|}.

Definition startup_ok : startup := {|
  env_complete := true; abi_loaded := true; connect := ret tt; first_block := ret 100
|}.

Definition tick_at (h : M Z) : tick := {| block_number := h; cycle := cycle_at 0 80 5 |}.

End Scenarios.

(* ------------------------------------------------------------------------- *)
(** * Properties *)

Module Selection.
Import Py Agent Props.

Lemma select_app (thr : option Z) (b : best) (rs1 rs2 : list (pair * Z * probe_result)) :
  select thr b (rs1 ++ rs2) = (b' <- select thr b rs1;; select thr b' rs2).
Proof.
  revert b; induction rs1 as [|[[p a] r] rs1 IH]; intros b; simpl; [reflexivity|].
  destruct (update thr b p a r); simpl; [reflexivity|apply IH].
Qed.

Lemma update_some (t : Z) (b : best) (p : pair) (a : Z) (r : probe_result) :
  update (Some t) b p a r =
  inr (if qualifies t r && gt (res_net r) (best_net_profit b)
       then {| best_pair := Some p; best_amount := Some a;
               best_profit := res_profit r; best_net_profit := res_net r;
               best_profitable := true; best_gas_cost := let '(_, _, _, g) := r in g |}
       else b).
Proof.
  destruct r as [[[pr e] n] gc]; unfold qualifies; simpl.
  destruct pr; simpl; [|reflexivity].
  destruct (Z.leb t e), (gt n (best_net_profit b)), (gt n (PInt 0)); reflexivity.
Qed.

(** The order facts used: [x > y >= z] gives [x > z]. *)
Lemma ext_gt_ge_trans (x y z : ext) :
  ext_gt x y = true -> z <> NaN -> ext_gt z y = false -> ext_gt x z = true.
Proof.
  destruct x, y, z; simpl; try discriminate; try congruence; intros H1 _ H2.
  apply negb_true_iff in H1. apply negb_false_iff in H2.
  apply negb_true_iff.
  apply Bool.not_true_iff_false; intros H3.
  apply Bool.not_true_iff_false in H1; apply H1.
  apply Qle_bool_iff in H2; apply Qle_bool_iff in H3; apply Qle_bool_iff.
  eapply Qle_trans; eauto.
Qed.

Lemma gt_zero_not_nan (n : num) : gt n (PInt 0) = true -> ext_of n <> NaN.
Proof. unfold gt; destruct (ext_of n); simpl; congruence. Qed.

Lemma gt_zero_gt_neginf (n : num) :
  gt n (PInt 0) = true -> gt n (PFloat neg_infinity) = true.
Proof.
  unfold gt; change (ext_of (PFloat neg_infinity)) with NegInf.
  destruct (ext_of n); simpl; congruence.
Qed.

Lemma select_first_max (t : Z) (rs : list (pair * Z * probe_result)) :
  exists b, select (Some t) best0 rs = inr b /\ first_max t rs b /\
            (best_profitable b = false -> best_net_profit b = PFloat neg_infinity).
Proof.
  induction rs as [|x rs IH] using rev_ind.
  - exists best0; split; [reflexivity|]; split; [intros x []|reflexivity].
  - destruct IH as (b & Hsel & Hmax & Hinf).
    rewrite select_app, Hsel; simpl.
    destruct x as [[p a] r].
    rewrite update_some.
    destruct (qualifies t r) eqn:Hq; simpl;
      [destruct (gt (res_net r) (best_net_profit b)) eqn:Hg|].
    + eexists; split; [reflexivity|]; split; [|discriminate].
      unfold first_max; simpl.
      exists rs, p, a, r, []; repeat split; auto.
      * intros y Hy Hqy.
        unfold first_max in Hmax.
        destruct (best_profitable b) eqn:Hb.
        -- destruct Hmax as (pre & p' & a' & r' & post & -> & Hq' & _ & _ & _ & Hn' & Hpre & Hpost).
           unfold gt in *; rewrite Hn' in Hg.
           apply in_app_or in Hy as [Hy|[<-|Hy]].
           ++ eapply ext_gt_ge_trans; [exact Hg| |].
              ** apply gt_zero_not_nan; unfold qualifies in Hqy;
                 apply andb_true_iff in Hqy; tauto.
              ** specialize (Hpre y Hy Hqy); unfold gt in Hpre.
                 destruct (ext_gt (ext_of (res_net r')) (ext_of (res_net (snd y)))) eqn:E;
                   [|discriminate].
                 destruct (ext_gt (ext_of (res_net (snd y))) (ext_of (res_net r'))) eqn:E2;
                   [|reflexivity].
                 destruct (ext_of (res_net r')), (ext_of (res_net (snd y)));
                   simpl in *; try discriminate.
                 apply negb_true_iff in E; apply negb_true_iff in E2.
                 apply Bool.not_true_iff_false in E; apply Bool.not_true_iff_false in E2.
                 destruct (Qle_bool q q0) eqn:F; [contradiction|].
                 destruct (Qle_bool q0 q) eqn:F2; [contradiction|].
                 apply Bool.not_true_iff_false in F; apply Bool.not_true_iff_false in F2.
                 exfalso; apply F; apply Qle_bool_iff; apply Qlt_le_weak;
                   apply Qnot_le_lt; intros F3; apply F2; apply Qle_bool_iff; exact F3.
           ++ simpl. apply (ext_gt_ge_trans _ (ext_of (res_net r'))); [exact Hg| |].
              ** apply gt_zero_not_nan; unfold qualifies in Hq';
                 apply andb_true_iff in Hq'; tauto.
              ** destruct (ext_of (res_net r')); simpl; try reflexivity.
                 apply negb_false_iff; apply Qle_bool_iff; apply Qle_refl.
           ++ eapply ext_gt_ge_trans; [exact Hg| |].
              ** apply gt_zero_not_nan; unfold qualifies in Hqy;
                 apply andb_true_iff in Hqy; tauto.
              ** exact (Hpost y Hy Hqy).
        -- exfalso. rewrite (Hmax y Hy) in Hqy; discriminate.
      * intros y [].
    + exists b; split; [reflexivity|]; split; [|exact Hinf].
      unfold first_max in *.
      destruct (best_profitable b) eqn:Hb.
      * destruct Hmax as (pre & p' & a' & r' & post & -> & Hq' & H1 & H2 & H3 & Hn' & Hpre & Hpost).
        exists pre, p', a', r', (post ++ [(p, a, r)]).
        rewrite <- app_assoc; repeat split; auto.
        intros y Hy Hqy; apply in_app_or in Hy as [Hy|[<-|[]]]; auto.
        simpl; rewrite <- Hn'; exact Hg.
      * exfalso. rewrite (Hinf eq_refl) in Hg.
        unfold qualifies in Hq; apply andb_true_iff in Hq as [_ Hq].
        rewrite (gt_zero_gt_neginf _ Hq) in Hg; discriminate.
    + exists b; split; [reflexivity|]; split; [|exact Hinf].
      unfold first_max in *.
      destruct (best_profitable b) eqn:Hb.
      * destruct Hmax as (pre & p' & a' & r' & post & -> & Hq' & H1 & H2 & H3 & Hn' & Hpre & Hpost).
        exists pre, p', a', r', (post ++ [(p, a, r)]).
        rewrite <- app_assoc; repeat split; auto.
        intros y Hy Hqy; apply in_app_or in Hy as [Hy|[<-|[]]]; auto.
        simpl in Hqy; congruence.
      * intros y Hy; apply in_app_or in Hy as [Hy|[<-|[]]]; auto.
Qed.

Lemma scan_amounts_select (thr : option Z) envs p amounts b rs :
  probe_amounts envs p amounts = inr rs ->
  scan_amounts thr envs p amounts b = select thr b rs.
Proof.
  revert b rs; induction amounts as [|a amounts IH]; intros b rs H; simpl in *.
  - injection H as <-; reflexivity.
  - destruct (probe envs p a) as [e|r]; simpl in *; [discriminate|].
    destruct (probe_amounts envs p amounts) as [e|rs']; simpl in *; [discriminate|].
    injection H as <-; simpl.
    destruct (update thr b p a r); simpl; [reflexivity|auto].
Qed.

Lemma scan_pairs_select (thr : option Z) envs pairs amounts b rs :
  probe_all envs pairs amounts = inr rs ->
  scan_pairs thr envs pairs amounts b = select thr b rs.
Proof.
  revert b rs; induction pairs as [|p ps IH]; intros b rs H; simpl in *.
  - injection H as <-; reflexivity.
  - destruct (probe_amounts envs p amounts) as [e|rs1] eqn:E1; simpl in *; [discriminate|].
    destruct (probe_all envs ps amounts) as [e|rs2] eqn:E2; simpl in *; [discriminate|].
    injection H as <-.
    rewrite (scan_amounts_select thr envs p amounts b rs1 E1), select_app.
    destruct (select thr b rs1); simpl; [reflexivity|auto].
Qed.

Lemma execute_no_candidate (g : globals) (ce : cycle_env) (b : best) (s : state) :
  scan_pairs (MIN_PROFIT_THRESHOLD g) (probes ce) (PAIRS g) (LOAN_AMOUNTS g) best0 = inr b ->
  best_profitable b = false ->
  execute_arbitrage g ce s = (inr false, s).
Proof.
  intros Hs Hb; unfold execute_arbitrage, sbind, lift; rewrite Hs, Hb; reflexivity.
Qed.

End Selection.

Module Probes.
Import Py Agent Props.

Lemma fees_float (x y : Z) (v : num) : fees x y = inr v -> exists f, v = PFloat f.
Proof.
  unfold fees, bind.
  repeat match goal with
         | |- context [match ?m with inl _ => _ | inr _ => _ end] => destruct m
         end; try discriminate.
  unfold truediv, bind.
  repeat match goal with
         | |- context [match ?m with inl _ => _ | inr _ => _ end] => destruct m
         | |- context [if ?c then _ else _] => destruct c
         end; try discriminate.
  intros H; injection H as <-; eauto.
Qed.

Lemma from_wei_nonzero (n u : Z) (v : num) :
  n <> 0 -> from_wei n u = inr v -> exists q, v = PDec q.
Proof.
  unfold from_wei; intros Hn.
  destruct (Z.eqb_spec n 0); [contradiction|].
  destruct (orb _ _); [discriminate|].
  intros H; injection H as <-; eauto.
Qed.

Lemma from_wei_valid (n u : Z) : 0 <= n <= MAX_WEI -> exists v, from_wei n u = inr v.
Proof.
  unfold from_wei; intros Hn.
  destruct (Z.eqb n 0); [eauto|].
  replace (orb (Z.ltb n 0) (Z.ltb MAX_WEI n)) with false; [eauto|].
  symmetry; apply orb_false_iff; split; apply Z.ltb_ge; lia.
Qed.

(** A probe's body only completes when the contract reports a zero profit:
    any other amount becomes a [Decimal], which the subtraction of a
    [float] fee refuses. *)
Lemma body_success_zero (pe : probe_env) (amount_in : Z) (r : probe_result) :
  simulate_body pe amount_in = inr r ->
  simulate_call pe = inr (res_profitable r, res_profit r) /\ res_profit r = 0.
Proof.
  unfold simulate_body; intros Hb.
  destruct (amounts_out_1 pe); simpl in Hb; [discriminate|].
  destruct (last_item l); simpl in Hb; [discriminate|].
  destruct (amounts_out_2 pe); simpl in Hb; [discriminate|].
  destruct (last_item l0); simpl in Hb; [discriminate|].
  destruct (fees z z0) as [e|fee] eqn:Hf; simpl in Hb; [discriminate|].
  destruct (fees_float _ _ _ Hf) as [f ->].
  destruct (simulate_call pe) as [e|[pr est]]; simpl in Hb; [discriminate|].
  destruct (gas_block pe amount_in) as [e|[[[ge gp] gcw] gc]]; simpl in Hb; [discriminate|].
  destruct (from_wei est ETHER) as [e|gross] eqn:Hg; simpl in Hb; [discriminate|].
  destruct (Z.eq_dec est 0) as [->|Hne].
  - destruct (sub gross (PFloat f)); simpl in Hb; [discriminate|].
    destruct (sub n gc); simpl in Hb; [discriminate|].
    destruct (from_wei amount_in ETHER); simpl in Hb; [discriminate|].
    destruct ge, gp, gcw; simpl in Hb; try discriminate.
    injection Hb as <-; simpl; auto.
  - destruct (from_wei_nonzero _ _ _ Hne Hg) as [q ->].
    simpl in Hb; discriminate.
Qed.

End Probes.

Module Nonce.
Import Py Agent Props.

Lemma submit_confirmed_some (se : submit_env) (mf pf : Z) (b : best) (s : state) (k : Z) :
  confirms se -> last_nonce s = Some k ->
  exists h, submit se mf pf b s =
    (inr true, {| last_nonce := Some (k + 1); trace := trace s ++ [Built (k + 1); Broadcast h] |}).
Proof.
  intros (Hb & (ge & gl & He & Hl) & Hs & (h & Hh) & Hr) Hk.
  exists h; destruct s as [n tr]; simpl in Hk; subst n.
  unfold submit, submit_body, sbind, get_nonce, set_nonce, emit, lift, sret; simpl.
  rewrite Hb, He, Hl, Hs, Hh, Hr; simpl.
  rewrite <- app_assoc; reflexivity.
Qed.

Lemma submit_confirmed_none (se : submit_env) (mf pf : Z) (b : best) (s : state) (c : Z) :
  confirms se -> last_nonce s = None -> pending_count se = inr c ->
  exists h, submit se mf pf b s =
    (inr true, {| last_nonce := Some c; trace := trace s ++ [Built c; Broadcast h] |}).
Proof.
  intros (Hb & (ge & gl & He & Hl) & Hs & (h & Hh) & Hr) Hk Hc.
  exists h; destruct s as [n tr]; simpl in Hk; subst n.
  unfold submit, submit_body, sbind, get_nonce, set_nonce, emit, lift, sret; simpl.
  rewrite Hc, Hb, He, Hl, Hs, Hh, Hr; simpl.
  rewrite <- app_assoc; reflexivity.
Qed.

Lemma submit_many_confirmed (ses : list submit_env) (mf pf : Z) (b : best) (s : state) (k : Z) :
  Forall confirms ses -> last_nonce s = Some k ->
  last_nonce (submit_many ses mf pf b s) = Some (k + Z.of_nat (List.length ses)).
Proof.
  revert s k; induction ses as [|se ses IH]; intros s k Hall Hk; simpl.
  - rewrite Hk; f_equal; lia.
  - inversion Hall as [|? ? Hse Hrest]; subst.
    destruct (submit_confirmed_some se mf pf b s k Hse Hk) as [h ->]; simpl.
    erewrite IH; [|exact Hrest|reflexivity]; f_equal; lia.
Qed.

End Nonce.

Module Loop.
Import Py Agent.

Lemma main_loop_crash (g : globals) (ticks : list tick) (lb : Z) (s s' : state) (e : exn) :
  main_loop g ticks lb s = (Crashed e, s') -> exists t, In t ticks /\ block_number t = inl e.
Proof.
  revert lb s; induction ticks as [|t ts IH]; intros lb s; simpl; [discriminate|].
  destruct (block_number t) as [e'|h] eqn:Ht.
  - intros H; injection H as <- _; exists t; auto.
  - destruct (Z.ltb lb h).
    + destruct (handle_new_block g (cycle t) s) as [_ s1].
      intros H; destruct (IH h s1 H) as (t' & Hin & He); eauto.
    + intros H; destruct (IH lb s H) as (t' & Hin & He); eauto.
Qed.

Lemma main_loop_running (g : globals) (ticks : list tick) (lb : Z) (s : state) :
  (forall t, In t ticks -> exists h, block_number t = inr h) ->
  exists lb' s', main_loop g ticks lb s = (Running lb', s').
Proof.
  revert lb s; induction ticks as [|t ts IH]; intros lb s Hok; simpl; [eauto|].
  destruct (Hok t (or_introl eq_refl)) as [h ->].
  assert (Hts : forall t', In t' ts -> exists h', block_number t' = inr h')
    by (intros t' Hin; apply Hok; right; exact Hin).
  destruct (Z.ltb lb h).
  - destruct (handle_new_block g (cycle t) s) as [_ s1]; apply IH; exact Hts.
  - apply IH; exact Hts.
Qed.

End Loop.

Module Claims.
Import Py Agent Props Selection Probes Nonce Loop Scenarios.

(** C1. For the results of one cycle's probes, the scan holds the first
    result with strictly greatest net profit among those that are
    profitable, reach the threshold and have positive net profit; when no
    result qualifies nothing is selected and the cycle returns without
    building or sending anything, its nonce untouched. *)
Theorem select_best_first_max (g : globals) (ce : cycle_env) (t : Z)
    (rs : list (pair * Z * probe_result)) :
  MIN_PROFIT_THRESHOLD g = Some t ->
  probe_all (probes ce) (PAIRS g) (LOAN_AMOUNTS g) = inr rs ->
  exists b,
    scan_pairs (MIN_PROFIT_THRESHOLD g) (probes ce) (PAIRS g) (LOAN_AMOUNTS g) best0 = inr b /\
    first_max t rs b /\
    (best_profitable b = false -> forall s, execute_arbitrage g ce s = (inr false, s)).
Proof.
  intros Ht Hrs.
  destruct (select_first_max t rs) as (b & Hsel & Hmax & _).
  assert (Hscan : scan_pairs (MIN_PROFIT_THRESHOLD g) (probes ce) (PAIRS g)
                    (LOAN_AMOUNTS g) best0 = inr b)
    by (rewrite (scan_pairs_select _ _ _ _ _ _ Hrs), Ht; exact Hsel).
  exists b; split; [exact Hscan|]; split; [exact Hmax|].
  intros Hb s; exact (execute_no_candidate g ce b s Hscan Hb).
Qed.

Definition demo_results : list (pair * Z * probe_result) :=
  match probe_all (probes_at 0) (PAIRS (main_init module_globals))
          (LOAN_AMOUNTS (main_init module_globals)) with
  | inr rs => rs
  | inl _ => []
  end.

Lemma select_best_first_max_witness :
  exists b,
    scan_pairs (MIN_PROFIT_THRESHOLD (main_init module_globals)) (probes (cycle_at 0 80 5))
      (PAIRS (main_init module_globals)) (LOAN_AMOUNTS (main_init module_globals)) best0 = inr b /\
    first_max (10 ^ 12) demo_results b /\
    (best_profitable b = false ->
     forall s, execute_arbitrage (main_init module_globals) (cycle_at 0 80 5) s = (inr false, s)).
Proof.
  apply (select_best_first_max (main_init module_globals) (cycle_at 0 80 5) (10 ^ 12) demo_results).
  - reflexivity.
  - vm_compute; reflexivity.
Defined.

(** C2 (the code falls short).  The comment of line 161 says [token_out]
    is in the token's own decimals and [weth_out] in wei, yet the two raw
    0.3% fees are added as they are (the conversion by
    [10**18 / 10**decimals] survives only in the commented-out line 158).
    At 1 WETH in, 2000 USDT (6 decimals) out of the first leg and 1 WETH
    back, the probe's fee is 0.003000000006 WETH where the fee with both
    legs in WETH is 0.006 WETH; the probe completes (its reported profit is
    zero) with net profit 0 - 0.003000000006 - 0.0072 = -0.010200000006. *)
Theorem fee_token_leg_unconverted :
  fees (2000 * 10 ^ 6) ETHER = inr (PFloat 0.003000000006) /\
  (fee_cost_spec ETHER (2000 * 10 ^ 6) ETHER == 6 # 1000)%Q /\
  simulate_arbitrage (probe_at 0 true) ETHER =
    inr (true, 0, PFloat (-0.010200000006), PFloat 0.0072).
Proof. vm_compute; repeat split; reflexivity. Qed.

(** C3, as stated it fails: when the contract reports a zero profit,
    [w3.from_wei] returns the [int] [0], the subtraction succeeds, and the
    probe returns its result rather than [(False, 0, 0, 0)]. *)
Lemma zero_profit_probe_completes :
  simulate_arbitrage (probe_at 0 true) ETHER <> inr failure_tuple.
Proof. vm_compute; discriminate. Qed.

(** C3, amended.  For a probe of a valid amount in which both pool quotes,
    the contract's simulation call and the gas estimate succeed: whenever
    the contract reports a nonzero profit, [simulate_arbitrage] returns
    [(False, 0, 0, 0)] ([Decimal] minus [float] raises [TypeError], caught by
    the probe's handler); any result the probe returns reports a profit of
    0; and under a positive threshold it is never selectable. *)
Theorem probe_never_selectable (pe : probe_env) (amount_in t : Z) (out1 out2 : list Z)
    (token_out weth_out : Z) (profitable : bool) (est ge gp : Z) :
  0 <= amount_in <= MAX_WEI -> 0 < t ->
  amounts_out_1 pe = inr out1 -> last_item out1 = inr token_out ->
  amounts_out_2 pe = inr out2 -> last_item out2 = inr weth_out ->
  simulate_call pe = inr (profitable, est) ->
  estimate_gas pe = inr ge -> gas_price pe = inr gp ->
  (est <> 0 -> simulate_arbitrage pe amount_in = inr failure_tuple) /\
  (forall r, simulate_arbitrage pe amount_in = inr r ->
     res_profit r = 0 /\ qualifies t r = false).
Proof.
  intros Ha Ht _ _ _ _ Hc _ _.
  destruct (from_wei_valid amount_in ETHER Ha) as [v Hv].
  split.
  - intros Hne; unfold simulate_arbitrage.
    destruct (simulate_body pe amount_in) as [e|r] eqn:Hb.
    + rewrite Hv; reflexivity.
    + destruct (body_success_zero _ _ _ Hb) as [Hc' H0].
      rewrite Hc in Hc'; injection Hc' as _ ->; contradiction.
  - intros r; unfold simulate_arbitrage.
    destruct (simulate_body pe amount_in) as [e|r'] eqn:Hb.
    + rewrite Hv; simpl; intros H; injection H as <-; split; reflexivity.
    + intros H; injection H as <-.
      destruct (body_success_zero _ _ _ Hb) as [_ H0].
      split; [exact H0|].
      unfold qualifies; rewrite H0.
      replace (Z.leb t 0) with false by (symmetry; apply Z.leb_gt; lia).
      rewrite andb_false_r; reflexivity.
Qed.

Lemma probe_never_selectable_witness :
  (5 <> 0 -> simulate_arbitrage (probe_at 5 true) ETHER = inr failure_tuple) /\
  (forall r, simulate_arbitrage (probe_at 5 true) ETHER = inr r ->
     res_profit r = 0 /\ qualifies (10 ^ 12) r = false).
Proof.
  apply (probe_never_selectable (probe_at 5 true) ETHER (10 ^ 12)
           [ETHER; 2000 * 10 ^ 6] [2000 * 10 ^ 6; ETHER] (2000 * 10 ^ 6) ETHER true 5
           300000 (20 * GWEI)); try reflexivity.
  vm_compute; split; discriminate.
Defined.

(** C4 (the code falls short).  [main] assigns [MAX_GAS_PRICE] and
    [BASE_PRIORITY_FEE] without declaring them [global], so the guard reads
    the module's [None]s: once the two fee reads succeed,
    [min(None, suggested)] raises [TypeError]; the guard neither accepts nor
    rejects. *)
Theorem gas_guard_unset_caps (ce : cycle_env) (base suggested : Z) :
  latest_base_fee ce = inr base -> max_priority_fee ce = inr suggested ->
  gas_guard (main_init module_globals) ce = inl TypeError.
Proof.
  intros Hb Hs; unfold gas_guard; rewrite Hb, Hs; reflexivity.
Qed.

Lemma gas_guard_unset_caps_witness :
  gas_guard (main_init module_globals) (cycle_at 0 80 5) = inl TypeError.
Proof. apply (gas_guard_unset_caps (cycle_at 0 80 5) (80 * GWEI) (5 * GWEI)); reflexivity. Defined.

(** C5. A submission that starts from a held nonce [n] and ends with a mined
    but failed receipt leaves the held nonce at [n]. *)
Theorem revert_restores_nonce (se : submit_env) (mf pf : Z) (b : best) (n : Z)
    (tr : list event) (ge gl h st : Z) :
  build se = inr tt -> estimate_tx_gas se = inr ge -> gas_limit ge = inr gl ->
  sign se = inr tt -> send_raw se = inr h -> receipt_status se = inr st -> st <> 1 ->
  submit se mf pf b {| last_nonce := Some n; trace := tr |} =
    (inr false, {| last_nonce := Some n; trace := tr ++ [Built (n + 1); Broadcast h] |}).
Proof.
  intros Hb He Hl Hs Hh Hr Hst.
  unfold submit, submit_body, sbind, get_nonce, set_nonce, emit, lift, sret; simpl.
  rewrite Hb, He, Hl, Hs, Hh, Hr; simpl.
  destruct (Z.eqb_spec st 1) as [E|_]; [contradiction|].
  simpl; rewrite <- app_assoc, Z.add_simpl_r; reflexivity.
Qed.

Lemma revert_restores_nonce_witness :
  submit (submission_at true 0 5) 0 0 best0 {| last_nonce := Some 7; trace := [] |} =
    (inr false, {| last_nonce := Some 7; trace := [] ++ [Built (7 + 1); Broadcast 4242] |}).
Proof.
  apply (revert_restores_nonce (submission_at true 0 5) 0 0 best0 7 [] 250000 300000 4242 0);
    try reflexivity; discriminate.
Defined.

(** C6, as stated it fails: one confirmed submission from no held nonce,
    with a pending count of 5, leaves 5 held, not 6. *)
Lemma one_confirmed_nonce :
  last_nonce (submit_many [submission_at true 1 5] 0 0 best0 state0) <> Some (5 + 1).
Proof. vm_compute; discriminate. Qed.

(** C6, amended. From no held nonce, after N >= 1 consecutive confirmed
    submissions the held nonce is [initial + N - 1], the nonce of the last
    transaction sent; the next acquisition yields [initial + N]. *)
Theorem confirmed_nonce_count (se0 : submit_env) (ses : list submit_env) (initial mf pf : Z)
    (b : best) :
  pending_count se0 = inr initial -> confirms se0 -> Forall confirms ses ->
  last_nonce (submit_many (se0 :: ses) mf pf b state0)
    = Some (initial + Z.of_nat (List.length (se0 :: ses)) - 1).
Proof.
  intros Hc H0 Hall; simpl.
  destruct (submit_confirmed_none se0 mf pf b state0 initial H0 eq_refl Hc) as [h ->]; simpl.
  erewrite submit_many_confirmed; [|exact Hall|reflexivity]; f_equal; lia.
Qed.

Lemma confirmed_nonce_count_witness :
  last_nonce (submit_many [submission_at true 1 5; submission_at true 1 5] 0 0 best0 state0)
    = Some (5 + Z.of_nat (List.length [submission_at true 1 5; submission_at true 1 5]) - 1).
Proof.
  assert (Hc : confirms (submission_at true 1 5)).
  { repeat split; try reflexivity; [exists 250000, 300000; split; reflexivity | eexists; reflexivity]. }
  apply (confirmed_nonce_count (submission_at true 1 5) [submission_at true 1 5] 5 0 0 best0);
    [reflexivity | exact Hc | constructor; [exact Hc | constructor]].
Defined.

(** C7 (the code falls short).  After an exception in the submission span
    the handler stores the freshly fetched pending count [c] as the held
    nonce; but the held nonce is the last one used, so the next acquisition
    increments it and the next transaction is built with [c + 1], not [c]. *)
Theorem failure_resync_then_increment (se se' : submit_env) (mf pf : Z) (b : best)
    (s : state) (e : exn) (c : Z) :
  fst (submit_body se mf pf b s) = inl e -> resync_count se = inr c -> confirms se' ->
  last_nonce (snd (submit se mf pf b s)) = Some c /\
  exists h, snd (submit se' mf pf b (snd (submit se mf pf b s))) =
    {| last_nonce := Some (c + 1);
       trace := trace (snd (submit se mf pf b s)) ++ [Built (c + 1); Broadcast h] |}.
Proof.
  intros Hf Hc Hse'.
  assert (Hs1 : last_nonce (snd (submit se mf pf b s)) = Some c).
  { unfold submit; destruct (submit_body se mf pf b s) as [[e'|ok] s1];
      simpl in Hf; [|discriminate]; rewrite Hc; reflexivity. }
  split; [exact Hs1|].
  destruct (submit_confirmed_some se' mf pf b _ c Hse' Hs1) as [h ->].
  exists h; reflexivity.
Qed.

Lemma failure_resync_then_increment_witness :
  last_nonce (snd (submit (submission_at false 1 8) 0 0 best0 {| last_nonce := Some 7; trace := [] |}))
    = Some 8 /\
  exists h, snd (submit (submission_at true 1 8) 0 0 best0
                   (snd (submit (submission_at false 1 8) 0 0 best0
                           {| last_nonce := Some 7; trace := [] |}))) =
    {| last_nonce := Some (8 + 1);
       trace := trace (snd (submit (submission_at false 1 8) 0 0 best0
                                {| last_nonce := Some 7; trace := [] |}))
                ++ [Built (8 + 1); Broadcast h] |}.
Proof.
  apply (failure_resync_then_increment (submission_at false 1 8) (submission_at true 1 8)
           0 0 best0 {| last_nonce := Some 7; trace := [] |} RemoteError 8).
  - reflexivity.
  - reflexivity.
  - repeat split; try reflexivity; [exists 250000, 300000; split; reflexivity | eexists; reflexivity].
Defined.

(** C8. A cycle whose scan selects nothing, or whose gas check rejects the
    selected opportunity, builds and sends nothing and leaves the nonce
    state as it found it. *)
Theorem guard_reject_no_submission (g : globals) (ce : cycle_env) (s : state) (b : best) :
  scan_pairs (MIN_PROFIT_THRESHOLD g) (probes ce) (PAIRS g) (LOAN_AMOUNTS g) best0 = inr b ->
  best_profitable b = false \/ gas_guard g ce = inr None ->
  execute_arbitrage g ce s = (inr false, s).
Proof.
  intros Hs [Hb|Hg].
  - exact (execute_no_candidate g ce b s Hs Hb).
  - unfold execute_arbitrage, sbind, lift.
    rewrite Hs; destruct (best_profitable b); [|reflexivity].
    simpl; rewrite Hg; reflexivity.
Qed.

Lemma guard_reject_no_submission_witness :
  execute_arbitrage intended_globals (cycle_at 0 99 5) state0 = (inr false, state0).
Proof.
  apply (guard_reject_no_submission intended_globals (cycle_at 0 99 5) state0 best0).
  - vm_compute; reflexivity.
  - right; vm_compute; reflexivity.
Defined.

(** C9 (the code falls short).  When gas estimation fails during a probe,
    the fallback gas cost 0.01 is assigned, but the debug [print]s read
    [gas_estimate], which is then unassigned: [UnboundLocalError] aborts the
    probe, which reports [(False, 0, 0, 0)]. *)
Theorem gas_fallback_probe_aborted :
  gas_block (probe_at 0 false) ETHER = inr (None, None, None, PFloat 0.01) /\
  simulate_body (probe_at 0 false) ETHER = inl UnboundLocalError /\
  simulate_arbitrage (probe_at 0 false) ETHER = inr failure_tuple.
Proof. vm_compute; repeat split; reflexivity. Qed.

(** C10, as stated it fails: a failed height read in a later pass of the
    polling loop is not caught and ends the process. *)
Lemma later_height_read_fatal :
  fst (run startup_ok [tick_at (ret 101); tick_at (raise RemoteError)]) = Crashed RemoteError.
Proof. vm_compute; reflexivity. Qed.

(** C10, amended.  Once start-up has passed, the process ends only through a
    failed height read of the polling loop; as long as the height reads
    succeed it keeps polling, whatever the execution cycles raise. *)
Theorem run_fatal_only_on_height_reads (su : startup) (ticks : list tick) (lb : Z) :
  env_complete su = true -> abi_loaded su = true -> connect su = inr tt ->
  first_block su = inr lb ->
  (forall e s, run su ticks = (Crashed e, s) -> exists t, In t ticks /\ block_number t = inl e) /\
  ((forall t, In t ticks -> exists h, block_number t = inr h) ->
   exists lb' s, run su ticks = (Running lb', s)).
Proof.
  intros He Ha Hc Hf; unfold run; rewrite He, Ha, Hc, Hf; simpl.
  split.
  - intros e s H; exact (main_loop_crash _ _ _ _ _ _ H).
  - intros Hok; exact (main_loop_running _ _ _ _ Hok).
Qed.

Lemma run_fatal_only_on_height_reads_witness :
  (forall e s, run startup_ok [tick_at (ret 101)] = (Crashed e, s) ->
     exists t, In t [tick_at (ret 101)] /\ block_number t = inl e) /\
  ((forall t, In t [tick_at (ret 101)] -> exists h, block_number t = inr h) ->
   exists lb' s, run startup_ok [tick_at (ret 101)] = (Running lb', s)).
Proof. apply (run_fatal_only_on_height_reads startup_ok [tick_at (ret 101)] 100); reflexivity. Defined.

End Claims.

(* ------------------------------------------------------------------------- *)
(** * Further properties of the agent *)

Module Coverage_lemmas.
Import Py Agent Props Selection Probes Nonce.

Lemma backslash_not_escaped : is_escape_char BACKSLASH = false.
Proof. reflexivity. Qed.

(** An escaped text never starts with one of [escape_chars]. *)
Lemma escape_head (s : list Z) (d : Z) (t : list Z) :
  escape_markdown s = d :: t -> is_escape_char d = false.
Proof.
  destruct s as [|c rest]; simpl; [discriminate|].
  destruct (is_escape_char c) eqn:Hc; intros H; injection H as <- _;
    [exact backslash_not_escaped|exact Hc].
Qed.

Lemma escape_nil (s : list Z) : escape_markdown s = [] -> s = [].
Proof.
  destruct s as [|c rest]; simpl; [reflexivity|].
  destruct (is_escape_char c); discriminate.
Qed.

Lemma unescape_escape (s : list Z) : unescape (escape_markdown s) = s.
Proof.
  induction s as [|c rest IH]; [reflexivity|]; simpl.
  destruct (is_escape_char c) eqn:Hc.
  - simpl. rewrite Hc, IH. reflexivity.
  - simpl. destruct (Z.eqb_spec c BACKSLASH) as [->|Hne].
    + destruct (escape_markdown rest) as [|d t] eqn:He.
      * rewrite (escape_nil rest He); reflexivity.
      * rewrite (escape_head rest d t He); f_equal; exact IH.
    + f_equal; exact IH.
Qed.

(** Every probe of a valid amount returns, with a result no positive
    threshold lets through. *)
Lemma probe_unselectable (envs : pair -> Z -> probe_env) (p : pair) (a : Z) :
  0 <= a <= MAX_WEI ->
  exists r, probe envs p a = inr r /\ (forall t, 0 < t -> qualifies t r = false).
Proof.
  intros Ha.
  destruct (from_wei_valid a ETHER Ha) as [v Hv].
  unfold probe, simulate_arbitrage.
  destruct (simulate_body (envs p a) a) as [e|r] eqn:Hb; simpl; rewrite ?Hv; simpl.
  - exists failure_tuple; split; [reflexivity|]; intros t _; reflexivity.
  - 
    exists r; split; [reflexivity|]; intros t Ht.
    destruct (body_success_zero _ _ _ Hb) as [_ H0].
    unfold qualifies; rewrite H0.
    replace (Z.leb t 0) with false by (symmetry; apply Z.leb_gt; lia).
    rewrite andb_false_r; reflexivity.
Qed.

Definition unselectable (x : pair * Z * probe_result) : Prop :=
  forall t, 0 < t -> qualifies t (snd x) = false.

Lemma probe_amounts_total (envs : pair -> Z -> probe_env) (p : pair) (amounts : list Z) :
  Forall (fun a => 0 <= a <= MAX_WEI) amounts ->
  exists rs, probe_amounts envs p amounts = inr rs /\
             map probe_key rs = map (fun a => (p, a)) amounts /\
             Forall unselectable rs.
Proof.
  induction amounts as [|a amounts IH]; intros Hall; simpl.
  - exists []; repeat split; constructor.
  - inversion Hall as [|? ? Ha Hrest]; subst.
    destruct (probe_unselectable envs p a Ha) as (r & Hr & Hq).
    destruct (IH Hrest) as (rs & Hrs & Hkeys & Hun).
    rewrite Hr; simpl; rewrite Hrs; simpl.
    exists ((p, a, r) :: rs); split; [reflexivity|]; split.
    + simpl; f_equal; exact Hkeys.
    + constructor; [exact Hq|exact Hun].
Qed.

Lemma probe_all_total (envs : pair -> Z -> probe_env) (pairs : list pair) (amounts : list Z) :
  Forall (fun a => 0 <= a <= MAX_WEI) amounts ->
  exists rs, probe_all envs pairs amounts = inr rs /\
             map probe_key rs = list_prod pairs amounts /\
             Forall unselectable rs.
Proof.
  intros Hall; induction pairs as [|p ps IH]; simpl.
  - exists []; repeat split; constructor.
  - destruct (probe_amounts_total envs p amounts Hall) as (rs1 & H1 & Hk1 & Hu1).
    destruct IH as (rs2 & H2 & Hk2 & Hu2).
    rewrite H1; simpl; rewrite H2; simpl.
    exists (rs1 ++ rs2); split; [reflexivity|]; split.
    + rewrite map_app, Hk1, Hk2; reflexivity.
    + apply Forall_app; split; assumption.
Qed.

Lemma select_none_qualifies (t : Z) (rs : list (pair * Z * probe_result)) :
  (forall x, In x rs -> qualifies t (snd x) = false) ->
  exists b, select (Some t) best0 rs = inr b /\ best_profitable b = false.
Proof.
  intros Hno.
  destruct (select_first_max t rs) as (b & Hsel & Hmax & _).
  exists b; split; [exact Hsel|].
  unfold first_max in Hmax.
  destruct (best_profitable b); [|reflexivity].
  destruct Hmax as (pre & p & a & r & post & Hrs & Hq & _).
  assert (Hin : In (p, a, r) rs) by (rewrite Hrs; apply in_or_app; right; left; reflexivity).
  pose proof (Hno _ Hin) as Hf; simpl in Hf; congruence.
Qed.

(** Under [main]'s configuration no cycle gets past the scan. *)
Lemma deployed_execute_idle (ce : cycle_env) (s : state) :
  execute_arbitrage (main_init module_globals) ce s = (inr false, s).
Proof.
  assert (Hamounts : Forall (fun a => 0 <= a <= MAX_WEI)
                            (LOAN_AMOUNTS (main_init module_globals)))
    by (simpl; repeat constructor; vm_compute; discriminate).
  destruct (probe_all_total (probes ce) (PAIRS (main_init module_globals)) _ Hamounts)
    as (rs & Hrs & _ & Hun).
  destruct (select_none_qualifies (10 ^ 12) rs) as (b & Hsel & Hb).
  - intros x Hx; rewrite Forall_forall in Hun; apply (Hun x Hx); reflexivity.
  - apply (execute_no_candidate _ _ b).
    + rewrite (scan_pairs_select _ _ _ _ _ _ Hrs); exact Hsel.
    + exact Hb.
Qed.

(** The state a submission body leaves when it raises, from a held nonce. *)
Lemma submit_body_raise_nonce (se : submit_env) (mf pf : Z) (b : best) (n : Z)
    (tr : list event) (e : exn) :
  fst (submit_body se mf pf b {| last_nonce := Some n; trace := tr |}) = inl e ->
  last_nonce (snd (submit_body se mf pf b {| last_nonce := Some n; trace := tr |})) = Some (n + 1).
Proof.
  unfold submit_body, sbind, get_nonce, set_nonce, emit, lift, sret; simpl.
  repeat match goal with
         | |- context [match ?m with inl _ => _ | inr _ => _ end] => destruct m
         | |- context [if ?c then _ else _] => destruct c
         end; simpl; intros H; try discriminate; reflexivity.
Qed.

Lemma main_loop_idle (g : globals) (ticks : list tick) (lb : Z) (s : state) :
  (forall ce s', execute_arbitrage g ce s' = (inr false, s')) ->
  snd (main_loop g ticks lb s) = s.
Proof.
  intros Hidle; revert lb; induction ticks as [|t ts IH]; intros lb; simpl; [reflexivity|].
  destruct (block_number t); [reflexivity|].
  destruct (Z.ltb lb z); [|apply IH].
  unfold handle_new_block; rewrite Hidle; apply IH.
Qed.

End Coverage_lemmas.

Module Coverage.
Import Py Agent Props Selection Probes Nonce Scenarios Coverage_lemmas.

(** [escape_markdown] loses nothing: two different texts never give the
    same escaped message.  The backslash, which is not among
    [escape_chars], is kept as it is and does not make two inputs collide. *)
Theorem escape_markdown_injective (s1 s2 : list Z) :
  escape_markdown s1 = escape_markdown s2 -> s1 = s2.
Proof.
  intros H; rewrite <- (unescape_escape s1), <- (unescape_escape s2), H; reflexivity.
Qed.

(** The text [\*] ([92; 42]): its escaped form [\\*] gives it back. *)
Lemma escape_markdown_injective_witness :
  escape_markdown [92; 42] = [92; 92; 42] /\ [92; 42] = unescape [92; 92; 42].
Proof.
  split; [reflexivity|].
  exact (escape_markdown_injective [92; 42] (unescape [92; 92; 42]) eq_refl).
Defined.

(** [escape_markdown] adds exactly one character per occurrence of one of
    [escape_chars]. *)
Theorem escape_markdown_length (s : list Z) :
  List.length (escape_markdown s) = (List.length s + List.length (filter is_escape_char s))%nat.
Proof.
  induction s as [|c rest IH]; [reflexivity|]; simpl.
  destruct (is_escape_char c); simpl; rewrite IH; lia.
Qed.

(** For valid loan amounts the scan never raises: a failing probe is
    caught and the remaining ones still run.  It probes each (pair, amount)
    exactly once, pairs in the outer loop and amounts in the inner one, and
    its selection is the selection over these results in that order. *)
Theorem scan_probes_every_pair_amount (thr : option Z) (envs : pair -> Z -> probe_env)
    (pairs : list pair) (amounts : list Z) (b : best) :
  Forall (fun a => 0 <= a <= MAX_WEI) amounts ->
  exists rs, probe_all envs pairs amounts = inr rs /\
             map probe_key rs = list_prod pairs amounts /\
             scan_pairs thr envs pairs amounts b = select thr b rs.
Proof.
  intros Hall.
  destruct (probe_all_total envs pairs amounts Hall) as (rs & Hrs & Hk & _).
  exists rs; split; [exact Hrs|]; split; [exact Hk|].
  apply scan_pairs_select; exact Hrs.
Qed.

Lemma scan_probes_every_pair_amount_witness :
  Forall (fun a => 0 <= a <= MAX_WEI) [ETHER; 10 * ETHER] /\
  exists rs, probe_all (probes_at 0) [weth_usdt; usdc_weth] [ETHER; 10 * ETHER] = inr rs /\
             map probe_key rs = list_prod [weth_usdt; usdc_weth] [ETHER; 10 * ETHER] /\
             scan_pairs (Some (10 ^ 12)) (probes_at 0) [weth_usdt; usdc_weth]
                        [ETHER; 10 * ETHER] best0 = select (Some (10 ^ 12)) best0 rs.
Proof.
  assert (H : Forall (fun a => 0 <= a <= MAX_WEI) [ETHER; 10 * ETHER])
    by (repeat constructor; vm_compute; discriminate).
  split; [exact H|].
  exact (scan_probes_every_pair_amount (Some (10 ^ 12)) (probes_at 0)
           [weth_usdt; usdc_weth] [ETHER; 10 * ETHER] best0 H).
Defined.

(** Under a set threshold, results that do not qualify play no part in the
    selection: dropping them leaves its outcome unchanged. *)
Theorem select_ignores_unqualified (t : Z) (b : best) (rs : list (pair * Z * probe_result)) :
  select (Some t) b rs = select (Some t) b (filter (fun x => qualifies t (snd x)) rs).
Proof.
  revert b; induction rs as [|[[p a] r] rest IH]; intros b; [reflexivity|].
  simpl; rewrite update_some; simpl.
  destruct (qualifies t r) eqn:Hq; simpl.
  - rewrite update_some, Hq; simpl. apply IH.
  - apply IH.
Qed.

(** Under the configuration [main] sets, a cycle never reaches the gas
    check or the submission: whatever the network answers, it returns
    [False], touches neither the held nonce nor the transactions, and
    raises nothing. *)
Theorem deployed_cycle_never_submits (ce : cycle_env) (s : state) :
  execute_arbitrage (main_init module_globals) ce s = (inr false, s).
Proof. exact (deployed_execute_idle ce s). Qed.

(** Hence the process as started never builds or broadcasts a transaction
    and never sets [last_nonce], however it ends. *)
Theorem deployed_run_never_transacts (su : startup) (ticks : list tick) :
  snd (run su ticks) = state0.
Proof.
  unfold run.
  destruct (env_complete su); [|reflexivity]; simpl.
  destruct (abi_loaded su); [|reflexivity]; simpl.
  destruct (connect su); [reflexivity|].
  destruct (first_block su); [reflexivity|].
  apply main_loop_idle; exact deployed_execute_idle.
Qed.

(** With integer caps the gas check computes
    [max_fee = base_fee + min(BASE_PRIORITY_FEE, suggested)] and rejects
    exactly when it exceeds [MAX_GAS_PRICE]. *)
Theorem gas_guard_integer_caps (g : globals) (ce : cycle_env) (base suggested cap maxcap : Z) :
  BASE_PRIORITY_FEE g = Some cap -> MAX_GAS_PRICE g = Some maxcap ->
  latest_base_fee ce = inr base -> max_priority_fee ce = inr suggested ->
  0 <= base + Z.min cap suggested <= MAX_WEI ->
  gas_guard g ce =
    inr (if Z.ltb maxcap (base + Z.min cap suggested) then None
         else Some (base + Z.min cap suggested, Z.min cap suggested)).
Proof.
  intros Hc Hm Hb Hs Hr.
  assert (Hmin : (if Z.ltb suggested cap then suggested else cap) = Z.min cap suggested).
  { destruct (Z.ltb_spec suggested cap); lia. }
  unfold gas_guard; rewrite Hb, Hs, Hc, Hm; simpl; rewrite Hmin.
  destruct (Z.ltb maxcap (base + Z.min cap suggested)); [|reflexivity].
  destruct (from_wei_valid (base + Z.min cap suggested) GWEI Hr) as [v ->]; reflexivity.
Qed.

Lemma gas_guard_integer_caps_witness :
  gas_guard intended_globals (cycle_at 0 80 5) = inr (Some (82 * GWEI, 2 * GWEI)).
Proof.
  exact (gas_guard_integer_caps intended_globals (cycle_at 0 80 5) (80 * GWEI) (5 * GWEI)
           (2 * GWEI) (100 * GWEI) eq_refl eq_refl eq_refl eq_refl
           ltac:(vm_compute; split; discriminate)).
Defined.

(** A transaction that was broadcast but whose receipt wait raises (the
    120 s timeout, say) is handled like any failure: whatever nonce was held
    before (none, or [n]), the held nonce is replaced by the freshly read
    pending count, not decremented. *)
Theorem receipt_failure_resyncs (se : submit_env) (mf pf : Z) (b : best) (s : state)
    (k ge gl h c : Z) (e : exn) :
  match last_nonce s with None => pending_count se = inr k | Some n => k = n + 1 end ->
  build se = inr tt -> estimate_tx_gas se = inr ge -> gas_limit ge = inr gl ->
  sign se = inr tt -> send_raw se = inr h -> receipt_status se = inl e ->
  resync_count se = inr c ->
  submit se mf pf b s =
    (inr false, {| last_nonce := Some c; trace := trace s ++ [Built k; Broadcast h] |}).
Proof.
  intros Hk Hb He Hl Hs Hh Hr Hc.
  destruct s as [[n|] tr]; simpl in Hk;
    unfold submit, submit_body, sbind, get_nonce, set_nonce, emit, lift, sret; simpl;
    [subst k|rewrite Hk];
    rewrite Hb, He, Hl, Hs, Hh, Hr, Hc; simpl;
    rewrite <- app_assoc; reflexivity.
Qed.

Lemma receipt_failure_resyncs_witness :
  submit {| pending_count := ret 5; build := ret tt; estimate_tx_gas := ret 250000;
            sign := ret tt; send_raw := ret 4242; receipt_status := raise RemoteError;
            resync_count := ret 9 |} 0 0 best0 state0 =
    (inr false, {| last_nonce := Some 9; trace := trace state0 ++ [Built 5; Broadcast 4242] |}).
Proof.
  apply (receipt_failure_resyncs _ 0 0 best0 state0 5 250000 300000 4242 9 RemoteError);
    reflexivity.
Defined.

(** After a mined but reverted transaction built with nonce [k] (the
    pending count when no nonce was held, [n + 1] from a held [n]), the next
    confirmed submission is built with the same nonce [k] again, although
    the chain has used it. *)
Theorem revert_then_nonce_reused (se se' : submit_env) (mf pf : Z) (b : best) (s : state)
    (k ge gl h st : Z) :
  match last_nonce s with None => pending_count se = inr k | Some n => k = n + 1 end ->
  build se = inr tt -> estimate_tx_gas se = inr ge -> gas_limit ge = inr gl ->
  sign se = inr tt -> send_raw se = inr h -> receipt_status se = inr st -> st <> 1 ->
  confirms se' ->
  exists h', submit_many [se; se'] mf pf b s =
    {| last_nonce := Some k;
       trace := trace s ++ [Built k; Broadcast h; Built k; Broadcast h'] |}.
Proof.
  intros Hk Hb He Hl Hs Hh Hr Hst Hc'.
  assert (H1 : submit se mf pf b s =
    (inr false, {| last_nonce := Some (k - 1); trace := trace s ++ [Built k; Broadcast h] |})).
  { destruct s as [[n|] tr]; simpl in Hk;
      unfold submit, submit_body, sbind, get_nonce, set_nonce, emit, lift, sret; simpl;
      [subst k|rewrite Hk];
      rewrite Hb, He, Hl, Hs, Hh, Hr; simpl;
      (destruct (Z.eqb_spec st 1); [contradiction|]); simpl;
      rewrite <- app_assoc; reflexivity. }
  simpl; rewrite H1; simpl.
  destruct (submit_confirmed_some se' mf pf b
              {| last_nonce := Some (k - 1); trace := trace s ++ [Built k; Broadcast h] |} (k - 1)
              Hc' eq_refl) as [h' ->].
  exists h'; simpl; rewrite <- app_assoc.
  replace (k - 1 + 1) with k by lia; reflexivity.
Qed.

Lemma revert_then_nonce_reused_witness :
  exists h', submit_many [submission_at true 0 5; submission_at true 1 5] 0 0 best0 state0 =
    {| last_nonce := Some 5;
       trace := trace state0 ++ [Built 5; Broadcast 4242; Built 5; Broadcast h'] |}.
Proof.
  refine (revert_then_nonce_reused (submission_at true 0 5) (submission_at true 1 5) 0 0 best0
           state0 5 250000 300000 4242 0 eq_refl eq_refl eq_refl eq_refl eq_refl eq_refl eq_refl _ _).
  - discriminate.
  - repeat split; [exists 250000, 300000; split; reflexivity|exists 4242; reflexivity].
Defined.

(** When a submission raises after the nonce was taken and the handler's
    re-read raises too, that exception escapes with the held nonce left at
    the incremented [n + 1]. *)
Theorem resync_failure_keeps_increment (se : submit_env) (mf pf : Z) (b : best) (n : Z)
    (tr : list event) (e e' : exn) :
  fst (submit_body se mf pf b {| last_nonce := Some n; trace := tr |}) = inl e ->
  resync_count se = inl e' ->
  fst (submit se mf pf b {| last_nonce := Some n; trace := tr |}) = inl e' /\
  last_nonce (snd (submit se mf pf b {| last_nonce := Some n; trace := tr |})) = Some (n + 1).
Proof.
  intros Hraise Hc.
  pose proof (submit_body_raise_nonce se mf pf b n tr e Hraise) as Hn.
  unfold submit.
  destruct (submit_body se mf pf b {| last_nonce := Some n; trace := tr |}) as [[e0|ok] s'];
    simpl in *; [|discriminate].
  rewrite Hc; split; [reflexivity|exact Hn].
Qed.

Definition failing_resync : submit_env := {|
  pending_count := ret 5; build := ret tt; estimate_tx_gas := ret 250000;
  sign := ret tt; send_raw := raise RemoteError; receipt_status := ret 1;
  resync_count := raise RemoteError |}.

Lemma resync_failure_keeps_increment_witness :
  fst (submit failing_resync 0 0 best0 {| last_nonce := Some 7; trace := [] |}) = inl RemoteError /\
  last_nonce (snd (submit failing_resync 0 0 best0 {| last_nonce := Some 7; trace := [] |})) =
    Some (7 + 1).
Proof.
  exact (resync_failure_keeps_increment failing_resync 0 0 best0 7 [] RemoteError RemoteError
           eq_refl eq_refl).
Defined.

(** When every height read succeeds, the loop's [last_block] ends at the
    greatest height seen (or where it started). *)
Theorem main_loop_watermark (g : globals) (ticks : list tick) (lb : Z) (s : state)
    (hs : list Z) :
  map block_number ticks = map inr hs ->
  exists s', main_loop g ticks lb s = (Running (fold_left Z.max hs lb), s').
Proof.
  revert lb s hs; induction ticks as [|t ts IH]; intros lb s hs Hh.
  - destruct hs; [|discriminate]; simpl; eauto.
  - destruct hs as [|h hs]; [discriminate|].
    simpl in Hh; injection Hh as Ht Hts; simpl; rewrite Ht.
    destruct (Z.ltb_spec lb h).
    + destruct (handle_new_block g (cycle t) s) as [_ s1].
      replace (Z.max lb h) with h by lia; apply IH; exact Hts.
    + replace (Z.max lb h) with lb by lia; apply IH; exact Hts.
Qed.

Lemma main_loop_watermark_witness :
  exists s', main_loop (main_init module_globals)
               [tick_at (ret 101); tick_at (ret 99); tick_at (ret 103)] 100 state0 =
             (Running (fold_left Z.max [101; 99; 103] 100), s').
Proof.
  apply (main_loop_watermark _ _ 100 state0 [101; 99; 103]); reflexivity.
Defined.

(** A pass that reads a height no greater than the last one starts no
    cycle: if no read goes past [last_block], the loop changes nothing. *)
Theorem main_loop_no_new_height (g : globals) (ticks : list tick) (lb : Z) (s : state) :
  Forall (fun t => exists h, block_number t = inr h /\ h <= lb) ticks ->
  main_loop g ticks lb s = (Running lb, s).
Proof.
  induction 1 as [|t ts [h [Ht Hle]] _ IH]; simpl; [reflexivity|].
  rewrite Ht.
  replace (Z.ltb lb h) with false by (symmetry; apply Z.ltb_ge; exact Hle).
  exact IH.
Qed.

Lemma main_loop_no_new_height_witness :
  main_loop intended_globals [tick_at (ret 100); tick_at (ret 42)] 100 state0 =
    (Running 100, state0).
Proof.
  apply main_loop_no_new_height.
  repeat constructor; [exists 100|exists 42]; split; (reflexivity || lia).
Defined.

End Coverage.
